(** * Tasks API (src/main.py): a shallow embedding and its properties

    The handlers of [src/main.py] are translated as functions in a small
    state-and-exception monad.  The state is the [tasks] table together
    with the number of clock readings and of UUID draws made so far; the
    clock ([datetime.utcnow]) and the UUID generator ([uuid4]) are oracles
    given by an environment.

    Conventions.
    - A [UUID] is a number, a [datetime] an integer count of microseconds.
    - Text is a [string] of 8-bit characters.
    - The table is a finite map from primary key to row ([gmap]).  The
      query leaves the order of rows with equal [created_at] open; here a
      scan visits [map_to_list] order and [ORDER BY] is a stable sort of
      the scan, and no statement below depends on the order among ties.
    - An integer bound into a statement must fit SQLite's signed 64 bits;
      the driver raises OverflowError otherwise.
    - The [Location] header written by [create_task] is not modelled. *)

From Stdlib Require Import ZArith String List Sorting.Sorted Sorting.Permutation.
From stdpp Require Import gmap strings list fin_maps.

Local Open Scope Z_scope.
Local Open Scope string_scope.

(** ** Data model *)

Inductive StatusEnum : Type :=
  | created
  | in_progress
  | completed.

Definition StatusEnum_value (s : StatusEnum) : string :=
  match s with
  | created => "created"
  | in_progress => "in_progress"
  | completed => "completed"
  end.

#[global] Instance StatusEnum_eq_dec : EqDecision StatusEnum.
Proof. solve_decision. Defined.

Definition UUID : Type := N.
Definition datetime : Type := Z.

Module Task.
Record t : Type := mk {
  id : UUID;
  title : string;
  description : option string;
  status : StatusEnum;
  created_at : datetime;
  updated_at : datetime
}.
End Task.

Module TaskCreate.
Record t : Type := mk {
  title : string;
  description : option string;
  status : option StatusEnum
}.
End TaskCreate.

Module TaskRead.
Record t : Type := mk {
  id : UUID;
  title : string;
  description : option string;
  status : StatusEnum;
  created_at : datetime;
  updated_at : datetime
}.
End TaskRead.

Module TaskUpdate.
Record t : Type := mk {
  title : option string;
  description : option string;
  status : option StatusEnum
}.
End TaskUpdate.

(** [TaskRead.from_orm]: a field-by-field copy. *)
Definition from_orm (task : Task.t) : TaskRead.t :=
  {| TaskRead.id := Task.id task;
     TaskRead.title := Task.title task;
     TaskRead.description := Task.description task;
     TaskRead.status := Task.status task;
     TaskRead.created_at := Task.created_at task;
     TaskRead.updated_at := Task.updated_at task |}.

(** ** Python truthiness *)

Definition str_truthy (s : string) : bool :=
  match s with
  | EmptyString => false
  | String _ _ => true
  end.

(** [x or default] for an optional member of the [str]-based enum. *)
Definition status_or (x : option StatusEnum) (default : StatusEnum) : StatusEnum :=
  match x with
  | Some s => if str_truthy (StatusEnum_value s) then s else default
  | None => default
  end.

(** [if q:] for an optional string. *)
Definition opt_str_truthy (q : option string) : bool :=
  match q with
  | Some s => str_truthy s
  | None => false
  end.

(** ** Environment, state and the handler monad *)

Record Env : Type := mkEnv {
  clock : nat -> datetime;   (* the n-th reading of datetime.utcnow() *)
  uuids : nat -> UUID        (* the n-th draw of uuid4() *)
}.

Record World : Type := mkWorld {
  tasks : gmap UUID Task.t;
  clock_reads : nat;
  uuid_draws : nat
}.

Inductive error : Type :=
  | HTTPException (status_code : Z) (detail : string)
  | IntegrityError
  | InvalidRequestError
  | AttributeError
  | OverflowError.

Definition HTTP_404_NOT_FOUND : Z := 404.

Inductive outcome (A : Type) : Type :=
  | Ok (a : A)
  | Raise (e : error).
Arguments Ok {A} a.
Arguments Raise {A} e.

Definition M (A : Type) : Type := World -> outcome A * World.

Definition ret {A} (a : A) : M A := fun w => (Ok a, w).

Definition raise {A} (e : error) : M A := fun w => (Raise e, w).

Definition bind {A B} (m : M A) (k : A -> M B) : M B :=
  fun w =>
    match m w with
    | (Ok a, w') => k a w'
    | (Raise e, w') => (Raise e, w')
    end.

Declare Scope handler_scope.
Delimit Scope handler_scope with handler.
Notation "x <- m ;; k" := (bind m (fun x => k))
  (at level 100, m at next level, right associativity) : handler_scope.
Notation "m ;;; k" := (bind m (fun _ => k))
  (at level 100, right associativity) : handler_scope.
Local Open Scope handler_scope.

(** [datetime.utcnow()] *)
Definition utcnow (env : Env) : M datetime :=
  fun w =>
    (Ok (clock env (clock_reads w)),
     {| tasks := tasks w;
        clock_reads := S (clock_reads w);
        uuid_draws := uuid_draws w |}).

(** [uuid4()] *)
Definition uuid4 (env : Env) : M UUID :=
  fun w =>
    (Ok (uuids env (uuid_draws w)),
     {| tasks := tasks w;
        clock_reads := clock_reads w;
        uuid_draws := S (uuid_draws w) |}).

(** ** The session (one table, primary key [id]) *)

Definition set_tasks (f : gmap UUID Task.t -> gmap UUID Task.t) (w : World) : World :=
  {| tasks := f (tasks w);
     clock_reads := clock_reads w;
     uuid_draws := uuid_draws w |}.

(** [session.get(Task, task_id)] *)
Definition session_get (task_id : UUID) : M (option Task.t) :=
  fun w => (Ok (tasks w !! task_id), w).

(** [session.add(task); session.commit()] for a new object: an INSERT,
    refused by the primary-key constraint when the key is taken. *)
Definition session_add_commit_new (task : Task.t) : M unit :=
  fun w =>
    match tasks w !! Task.id task with
    | Some _ => (Raise IntegrityError, w)
    | None => (Ok tt, set_tasks (insert (Task.id task) task) w)
    end.

(** [session.add(task); session.commit()] for a loaded object with changed
    attributes: an UPDATE of the row with that key. *)
Definition session_add_commit_dirty (task : Task.t) : M unit :=
  fun w => (Ok tt, set_tasks (insert (Task.id task) task) w).

(** [session.delete(task); session.commit()]: a DELETE of the row. *)
Definition session_delete_commit (task : Task.t) : M unit :=
  fun w => (Ok tt, set_tasks (delete (Task.id task)) w).

(** [session.refresh(task)]: reload the row of this object. *)
Definition session_refresh (task : Task.t) : M Task.t :=
  fun w =>
    match tasks w !! Task.id task with
    | Some row => (Ok row, w)
    | None => (Raise InvalidRequestError, w)
    end.

(** ** Constructing a Task: the default factories run in field order *)

Definition Task_new (env : Env) (title : string) (description : option string)
    (status : StatusEnum) : M Task.t :=
  id <- uuid4 env ;;
  created_at <- utcnow env ;;
  updated_at <- utcnow env ;;
  ret {| Task.id := id;
         Task.title := title;
         Task.description := description;
         Task.status := status;
         Task.created_at := created_at;
         Task.updated_at := updated_at |}.

(** ** Handlers *)

(** [HTTPException(status_code=status.HTTP_404_NOT_FOUND, detail="Task not found")] *)
Definition NotFound : error := HTTPException HTTP_404_NOT_FOUND "Task not found".

Definition not_found {A} : M A := raise NotFound.

Definition create_task (env : Env) (payload : TaskCreate.t) : M TaskRead.t :=
  task <- Task_new env
            (TaskCreate.title payload)
            (TaskCreate.description payload)
            (status_or (TaskCreate.status payload) created) ;;
  session_add_commit_new task ;;;
  task <- session_refresh task ;;
  ret (from_orm task).

Definition get_task (task_id : UUID) : M TaskRead.t :=
  task <- session_get task_id ;;
  match task with
  | None => not_found
  | Some task => ret (from_orm task)
  end.

(** *** update_task *)

Definition set_title (v : string) (task : Task.t) : Task.t :=
  {| Task.id := Task.id task;
     Task.title := v;
     Task.description := Task.description task;
     Task.status := Task.status task;
     Task.created_at := Task.created_at task;
     Task.updated_at := Task.updated_at task |}.

Definition set_description (v : option string) (task : Task.t) : Task.t :=
  {| Task.id := Task.id task;
     Task.title := Task.title task;
     Task.description := v;
     Task.status := Task.status task;
     Task.created_at := Task.created_at task;
     Task.updated_at := Task.updated_at task |}.

Definition set_status (v : StatusEnum) (task : Task.t) : Task.t :=
  {| Task.id := Task.id task;
     Task.title := Task.title task;
     Task.description := Task.description task;
     Task.status := v;
     Task.created_at := Task.created_at task;
     Task.updated_at := Task.updated_at task |}.

Definition set_updated_at (v : datetime) (task : Task.t) : Task.t :=
  {| Task.id := Task.id task;
     Task.title := Task.title task;
     Task.description := Task.description task;
     Task.status := Task.status task;
     Task.created_at := Task.created_at task;
     Task.updated_at := v |}.

(** The three guarded assignments of [update_task], each of the form
    [if new is not None and new != task.field], threading the local
    variables [task] and [updated]. *)
Definition assign_title (payload : TaskUpdate.t) (s : Task.t * bool) : Task.t * bool :=
  let '(task, updated) := s in
  match TaskUpdate.title payload with
  | Some v =>
      if negb (bool_decide (v = Task.title task))
      then (set_title v task, true)
      else (task, updated)
  | None => (task, updated)
  end.

Definition assign_description (payload : TaskUpdate.t) (s : Task.t * bool) : Task.t * bool :=
  let '(task, updated) := s in
  match TaskUpdate.description payload with
  | Some v =>
      if negb (bool_decide (Some v = Task.description task))
      then (set_description (Some v) task, true)
      else (task, updated)
  | None => (task, updated)
  end.

Definition assign_status (payload : TaskUpdate.t) (s : Task.t * bool) : Task.t * bool :=
  let '(task, updated) := s in
  match TaskUpdate.status payload with
  | Some v =>
      if negb (bool_decide (v = Task.status task))
      then (set_status v task, true)
      else (task, updated)
  | None => (task, updated)
  end.

Definition apply_payload (payload : TaskUpdate.t) (task : Task.t) : Task.t * bool :=
  assign_status payload (assign_description payload (assign_title payload (task, false))).

Definition update_task (env : Env) (task_id : UUID) (payload : TaskUpdate.t) : M TaskRead.t :=
  task <- session_get task_id ;;
  match task with
  | None => not_found
  | Some task =>
      let '(task, updated) := apply_payload payload task in
      task <- (if updated : bool
               then now <- utcnow env ;;
                    let task := set_updated_at now task in
                    session_add_commit_dirty task ;;;
                    session_refresh task
               else ret task) ;;
      ret (from_orm task)
  end.

(** *** delete_task *)

Definition delete_task (task_id : UUID) : M unit :=
  task <- session_get task_id ;;
  match task with
  | None => not_found
  | Some task => session_delete_commit task ;;; ret tt
  end.

(** ** SQL expressions over a row: three-valued, NULL is [None] *)

Definition sql_bool : Type := option bool.
Definition sql_expr : Type := Task.t -> sql_bool.

(** A WHERE clause keeps a row only when it evaluates to TRUE. *)
Definition sql_is_true (v : sql_bool) : bool :=
  match v with
  | Some true => true
  | _ => false
  end.

(** ** SELECT statements *)

Record Select : Type := mkSelect {
  whereclause : list sql_expr;                      (* conjunction *)
  order_by_clause : option (Task.t -> Task.t -> bool);  (* "goes no later than" *)
  limit_clause : option Z;
  offset_clause : option Z
}.

(** [select(Task)] *)
Definition select_Task : Select :=
  {| whereclause := []; order_by_clause := None;
     limit_clause := None; offset_clause := None |}.

Definition stmt_where (stmt : Select) (e : sql_expr) : Select :=
  {| whereclause := whereclause stmt ++ [e];
     order_by_clause := order_by_clause stmt;
     limit_clause := limit_clause stmt;
     offset_clause := offset_clause stmt |}.

Definition stmt_order_by (stmt : Select) (o : Task.t -> Task.t -> bool) : Select :=
  {| whereclause := whereclause stmt;
     order_by_clause := Some o;
     limit_clause := limit_clause stmt;
     offset_clause := offset_clause stmt |}.

Definition stmt_limit (stmt : Select) (n : Z) : Select :=
  {| whereclause := whereclause stmt;
     order_by_clause := order_by_clause stmt;
     limit_clause := Some n;
     offset_clause := offset_clause stmt |}.

Definition stmt_offset (stmt : Select) (n : Z) : Select :=
  {| whereclause := whereclause stmt;
     order_by_clause := order_by_clause stmt;
     limit_clause := limit_clause stmt;
     offset_clause := Some n |}.

(** [Task.created_at.desc()] *)
Definition created_at_desc (a b : Task.t) : bool :=
  (Task.created_at b <=? Task.created_at a)%Z.

(** [Task.status == status_] *)
Definition status_eq (status_ : StatusEnum) : sql_expr :=
  fun row => Some (bool_decide (Task.status row = status_)).

(** *** Executing a statement *)

Fixpoint sort_insert {A} (before : A -> A -> bool) (x : A) (l : list A) : list A :=
  match l with
  | [] => [x]
  | y :: l' => if before x y then x :: l else y :: sort_insert before x l'
  end.

Definition sort_by {A} (before : A -> A -> bool) (l : list A) : list A :=
  fold_right (sort_insert before) [] l.

Definition table_scan (table : gmap UUID Task.t) : list Task.t :=
  (map_to_list table).*2.

Definition row_selected (clauses : list sql_expr) (row : Task.t) : bool :=
  forallb (fun e => sql_is_true (e row)) clauses.

Definition apply_order (o : option (Task.t -> Task.t -> bool)) (rows : list Task.t)
    : list Task.t :=
  match o with
  | Some before => sort_by before rows
  | None => rows
  end.

(** OFFSET n: a negative n skips nothing. *)
Definition apply_offset (o : option Z) (rows : list Task.t) : list Task.t :=
  match o with
  | Some n => skipn (Z.to_nat n) rows
  | None => rows
  end.

(** LIMIT n: a negative n is no limit. *)
Definition apply_limit (o : option Z) (rows : list Task.t) : list Task.t :=
  match o with
  | Some n => if (n <? 0)%Z then rows else firstn (Z.to_nat n) rows
  | None => rows
  end.

Definition run_select (stmt : Select) (table : gmap UUID Task.t) : list Task.t :=
  apply_limit (limit_clause stmt)
    (apply_offset (offset_clause stmt)
       (apply_order (order_by_clause stmt)
          (List.filter (row_selected (whereclause stmt)) (table_scan table)))).

(** An integer the driver can bind as an SQLite INTEGER. *)
Definition sqlite_integer (n : Z) : bool :=
  (- 2 ^ 63 <=? n)%Z && (n <? 2 ^ 63)%Z.

Definition bindable (o : option Z) : bool :=
  match o with
  | Some n => sqlite_integer n
  | None => true
  end.

(** [session.exec(stmt).all()]: LIMIT and OFFSET are bound parameters; the
    driver raises OverflowError when one does not fit. *)
Definition session_exec_all (stmt : Select) : M (list Task.t) :=
  fun w =>
    if bindable (limit_clause stmt) && bindable (offset_clause stmt)
    then (Ok (run_select stmt (tasks w)), w)
    else (Raise OverflowError, w).

(** *** apply_filters and list_tasks *)

(** [col(Task.title).lower()]: [col] returns the mapped column, and a
    mapped column has no attribute [lower] (lower-casing in SQL is
    [func.lower]), so the attribute access raises AttributeError. *)
Definition column_lower {A} : M A := raise AttributeError.

(** In the [if q:] branch the pattern string is built first and then the
    first operand of the disjunction, [col(Task.title).lower()], raises:
    no statement is returned. *)
Definition apply_filters (stmt : Select) (status_ : option StatusEnum) (q : option string)
    : M Select :=
  let stmt :=
    match status_ with
    | Some s => stmt_where stmt (status_eq s)
    | None => stmt
    end in
  if opt_str_truthy q then column_lower
  else ret stmt.

Definition list_tasks (status_ : option StatusEnum) (q : option string)
    (limit offset : Z) : M (list TaskRead.t) :=
  let stmt := stmt_order_by select_Task created_at_desc in
  stmt <- apply_filters stmt status_ q ;;
  let stmt := stmt_offset (stmt_limit stmt limit) offset in
  tasks <- session_exec_all stmt ;;
  ret (map from_orm tasks).

(** ** Request sequences *)

Inductive request : Type :=
  | POST_tasks (payload : TaskCreate.t)
  | GET_task (task_id : UUID)
  | GET_tasks (status_ : option StatusEnum) (q : option string) (limit offset : Z)
  | PATCH_task (task_id : UUID) (payload : TaskUpdate.t)
  | DELETE_task (task_id : UUID).

(** The state left by serving one request, whatever the response. *)
Definition serve (env : Env) (r : request) (w : World) : World :=
  match r with
  | POST_tasks payload => snd (create_task env payload w)
  | GET_task task_id => snd (get_task task_id w)
  | GET_tasks status_ q limit offset => snd (list_tasks status_ q limit offset w)
  | PATCH_task task_id payload => snd (update_task env task_id payload w)
  | DELETE_task task_id => snd (delete_task task_id w)
  end.

Definition initial_world : World :=
  {| tasks := ∅; clock_reads := 0; uuid_draws := 0 |}.

Inductive reachable (env : Env) : World -> Prop :=
  | reachable_init : reachable env initial_world
  | reachable_serve w r : reachable env w -> reachable env (serve env r w).

(** A clock whose readings never decrease. *)
Definition monotonic_clock (env : Env) : Prop :=
  forall i j : nat, (i <= j)%nat -> clock env i <= clock env j.

(** Every row is stored under its own primary key. *)
Definition table_wf (table : gmap UUID Task.t) : Prop :=
  forall k row, table !! k = Some row -> Task.id row = k.

(** Stored timestamps are ordered and not ahead of any later reading. *)
Definition timestamps_ok (env : Env) (w : World) : Prop :=
  forall k row, tasks w !! k = Some row ->
    Task.created_at row <= Task.updated_at row /\
    forall n : nat, (clock_reads w <= n)%nat -> Task.updated_at row <= clock env n.

(** The errors the handlers raise themselves, as opposed to failures of
    the store. *)
Definition is_domain_error (e : error) : bool :=
  match e with
  | HTTPException _ _ => true
  | IntegrityError | InvalidRequestError | AttributeError | OverflowError => false
  end.

(** ** Specification-side notions *)

Definition created_at_ge (a b : Task.t) : Prop :=
  Task.created_at b <= Task.created_at a.

(** A page: skip [offset] rows, then keep at most [limit]. *)
Definition page (limit offset : Z) (rows : list Task.t) : list Task.t :=
  firstn (Z.to_nat limit) (skipn (Z.to_nat offset) rows).

(** The statement [apply_filters] returns to [list_tasks] when there is no
    query: ordered by [created_at] descending, with the status clause when
    a status is given. *)
Definition listing_stmt (status_ : option StatusEnum) : Select :=
  match status_ with
  | Some s => stmt_where (stmt_order_by select_Task created_at_desc) (status_eq s)
  | None => stmt_order_by select_Task created_at_desc
  end.

(** The filtered and ordered rows that [list_tasks] then pages through. *)
Definition listed_rows (status_ : option StatusEnum) (table : gmap UUID Task.t)
    : list Task.t :=
  run_select (listing_stmt status_) table.

(** The rows of the table that pass the WHERE clause, in scan order. *)
Definition filtered_rows (status_ : option StatusEnum) (table : gmap UUID Task.t)
    : list Task.t :=
  List.filter (row_selected (whereclause (listing_stmt status_))) (table_scan table).

Definition status_filter_ok (status_ : option StatusEnum) (row : Task.t) : Prop :=
  forall s, status_ = Some s -> Task.status row = s.

(** ** Sample environments and worlds *)

(** A clock that advances by one microsecond per reading. *)
Definition ticking_env : Env :=
  {| clock := fun n => Z.of_nat n; uuids := fun n => N.of_nat (10 + n) |}.

Definition buy_milk : TaskCreate.t :=
  {| TaskCreate.title := "Buy milk";
     TaskCreate.description := None;
     TaskCreate.status := None |}.

Definition walk_dog : TaskCreate.t :=
  {| TaskCreate.title := "Walk dog";
     TaskCreate.description := Some "in the park";
     TaskCreate.status := Some completed |}.

Definition world_A : World := serve ticking_env (POST_tasks buy_milk) initial_world.
Definition world_AB : World := serve ticking_env (POST_tasks walk_dog) world_A.

(** A clock that is set back once, after the second reading. *)
Definition adjusted_env : Env :=
  {| clock := fun n => if (n <? 2)%nat then 100 + Z.of_nat n else Z.of_nat n;
     uuids := fun n => N.of_nat (10 + n) |}.

Definition world_adjusted : World :=
  serve adjusted_env (POST_tasks buy_milk) initial_world.

Definition mark_completed : TaskUpdate.t :=
  {| TaskUpdate.title := None;
     TaskUpdate.description := None;
     TaskUpdate.status := Some completed |}.

Definition retitle : TaskUpdate.t :=
  {| TaskUpdate.title := Some "Buy oat milk";
     TaskUpdate.description := None;
     TaskUpdate.status := None |}.


Definition world_AB_done : World :=
  serve ticking_env (PATCH_task 10%N mark_completed) world_AB.

(** The row built by [create_task] in world [w]. *)
Definition new_row (env : Env) (payload : TaskCreate.t) (w : World) : Task.t :=
  {| Task.id := uuids env (uuid_draws w);
     Task.title := TaskCreate.title payload;
     Task.description := TaskCreate.description payload;
     Task.status := default created (TaskCreate.status payload);
     Task.created_at := clock env (clock_reads w);
     Task.updated_at := clock env (S (clock_reads w)) |}.

(** The row left by [update_task] when some field changes. *)
Definition updated_row (env : Env) (payload : TaskUpdate.t) (task : Task.t) (w : World)
    : Task.t :=
  set_updated_at (clock env (clock_reads w)) (fst (apply_payload payload task)).

(** Some provided field differs from the stored one. *)
Definition changes (payload : TaskUpdate.t) (task : Task.t) : Prop :=
  (exists v, TaskUpdate.title payload = Some v /\ v <> Task.title task) \/
  (exists v, TaskUpdate.description payload = Some v /\ Some v <> Task.description task) \/
  (exists v, TaskUpdate.status payload = Some v /\ v <> Task.status task).

(** ** Request validation: the constraints declared on the request models
    and on the query parameters *)

(** [TaskCreate]: [title] has [min_length=1, max_length=200],
    [description] has [max_length=2000]. *)
Definition TaskCreate_valid (payload : TaskCreate.t) : bool :=
  (1 <=? String.length (TaskCreate.title payload))%nat
  && (String.length (TaskCreate.title payload) <=? 200)%nat
  && match TaskCreate.description payload with
     | Some d => (String.length d <=? 2000)%nat
     | None => true
     end.

(** [TaskUpdate]: the same constraints on the fields that are provided. *)
Definition TaskUpdate_valid (payload : TaskUpdate.t) : bool :=
  match TaskUpdate.title payload with
  | Some t => (1 <=? String.length t)%nat && (String.length t <=? 200)%nat
  | None => true
  end
  && match TaskUpdate.description payload with
     | Some d => (String.length d <=? 2000)%nat
     | None => true
     end.

(** The [Query] constraints of [list_tasks]: [q] has [min_length=1],
    [limit] has [ge=1, le=100], [offset] has [ge=0]. *)
Definition list_query_valid (q : option string) (limit offset : Z) : bool :=
  match q with
  | Some s => (1 <=? String.length s)%nat
  | None => true
  end
  && (1 <=? limit)%Z && (limit <=? 100)%Z && (0 <=? offset)%Z.

Definition request_valid (r : request) : bool :=
  match r with
  | POST_tasks payload => TaskCreate_valid payload
  | GET_task _ => true
  | GET_tasks _ q limit offset => list_query_valid q limit offset
  | PATCH_task _ payload => TaskUpdate_valid payload
  | DELETE_task _ => true
  end.

(** Worlds reached by requests that pass validation. *)
Inductive reachable_validated (env : Env) : World -> Prop :=
  | reachable_validated_init : reachable_validated env initial_world
  | reachable_validated_serve w r :
      reachable_validated env w ->
      request_valid r = true ->
      reachable_validated env (serve env r w).

(** The length bounds the request models promise for a stored row. *)
Definition row_within_bounds (row : Task.t) : Prop :=
  (1 <= String.length (Task.title row) <= 200)%nat /\
  forall d, Task.description row = Some d -> (String.length d <= 2000)%nat.

(** ** Basic facts *)

Lemma status_or_default x d : status_or x d = default d x.
Proof. destruct x as [[]|]; reflexivity. Qed.

Lemma get_task_eq task_id w :
  get_task task_id w =
  match tasks w !! task_id with
  | Some task => (Ok (from_orm task), w)
  | None => (Raise NotFound, w)
  end.
Proof.
  unfold get_task, bind, session_get. simpl.
  destruct (tasks w !! task_id); reflexivity.
Qed.

Lemma create_task_eq env payload w :
  create_task env payload w =
  let row := new_row env payload w in
  match tasks w !! Task.id row with
  | Some _ =>
      (Raise IntegrityError,
       {| tasks := tasks w;
          clock_reads := S (S (clock_reads w));
          uuid_draws := S (uuid_draws w) |})
  | None =>
      (Ok (from_orm row),
       {| tasks := <[Task.id row := row]> (tasks w);
          clock_reads := S (S (clock_reads w));
          uuid_draws := S (uuid_draws w) |})
  end.
Proof.
  unfold create_task, Task_new, bind, uuid4, utcnow, ret, session_add_commit_new,
    session_refresh, set_tasks, new_row.
  cbn [tasks clock_reads uuid_draws Task.id fst snd].
  rewrite status_or_default.
  destruct (tasks w !! uuids env (uuid_draws w)) eqn:E; [reflexivity|].
  cbn [tasks]. rewrite lookup_insert_eq. reflexivity.
Qed.

(** *** The field-by-field diff of [update_task] *)

Ltac unfold_payload :=
  unfold apply_payload, assign_status, assign_description, assign_title.

Ltac payload_cases payload :=
  destruct payload as [[v1|] [v2|] [v3|]];
  cbn [TaskUpdate.title TaskUpdate.description TaskUpdate.status
       default from_option id fst snd negb];
  repeat (case_bool_decide;
          cbn [negb fst snd set_title set_description set_status
               Task.id Task.title Task.description Task.status
               Task.created_at Task.updated_at]).

Lemma apply_payload_title payload task :
  Task.title (fst (apply_payload payload task)) =
  default (Task.title task) (TaskUpdate.title payload).
Proof. unfold_payload. payload_cases payload; congruence. Qed.

Lemma apply_payload_description payload task :
  Task.description (fst (apply_payload payload task)) =
  match TaskUpdate.description payload with
  | Some v => Some v
  | None => Task.description task
  end.
Proof. unfold_payload. payload_cases payload; congruence. Qed.

Lemma apply_payload_status payload task :
  Task.status (fst (apply_payload payload task)) =
  default (Task.status task) (TaskUpdate.status payload).
Proof. unfold_payload. payload_cases payload; congruence. Qed.

Lemma apply_payload_frame payload task :
  Task.id (fst (apply_payload payload task)) = Task.id task /\
  Task.created_at (fst (apply_payload payload task)) = Task.created_at task /\
  Task.updated_at (fst (apply_payload payload task)) = Task.updated_at task.
Proof. unfold_payload. payload_cases payload; auto. Qed.

Lemma apply_payload_updated payload task :
  snd (apply_payload payload task) = true <-> changes payload task.
Proof.
  unfold changes. unfold_payload.
  payload_cases payload; split; intros Hch; try reflexivity; try discriminate;
    try (left; eexists; split; [reflexivity|assumption]);
    try (right; left; eexists; split; [reflexivity|assumption]);
    try (right; right; eexists; split; [reflexivity|assumption]);
    exfalso;
    destruct Hch as [(v & Hv & Hne)|[(v & Hv & Hne)|(v & Hv & Hne)]];
    try discriminate; injection Hv as <-; contradiction.
Qed.

Lemma apply_payload_not_updated payload task :
  snd (apply_payload payload task) = false <-> ~ changes payload task.
Proof.
  rewrite <- apply_payload_updated.
  destruct (snd (apply_payload payload task)); split; intros; congruence.
Qed.

Lemma apply_payload_unchanged payload task :
  snd (apply_payload payload task) = false -> fst (apply_payload payload task) = task.
Proof. unfold_payload. payload_cases payload; intros Hno; try discriminate; reflexivity. Qed.

Lemma update_task_eq env task_id payload w task :
  tasks w !! task_id = Some task ->
  update_task env task_id payload w =
  if snd (apply_payload payload task) then
    let row := updated_row env payload task w in
    (Ok (from_orm row),
     {| tasks := <[Task.id task := row]> (tasks w);
        clock_reads := S (clock_reads w);
        uuid_draws := uuid_draws w |})
  else (Ok (from_orm task), w).
Proof.
  intros Hget.
  unfold update_task, bind, session_get. cbn [fst snd]. rewrite Hget.
  unfold updated_row.
  pose proof (apply_payload_frame payload task) as (Hid & _ & _).
  pose proof (apply_payload_unchanged payload task) as Hsame.
  destruct (apply_payload payload task) as [task1 updated].
  cbn [fst snd] in *. destruct updated.
  - unfold utcnow, session_add_commit_dirty, session_refresh, set_tasks, ret.
    cbn [tasks clock_reads uuid_draws fst snd set_updated_at Task.id].
    rewrite lookup_insert_eq, Hid. reflexivity.
  - unfold ret. rewrite (Hsame eq_refl). reflexivity.
Qed.

Lemma update_task_missing env task_id payload w :
  tasks w !! task_id = None ->
  update_task env task_id payload w = (Raise NotFound, w).
Proof.
  intros Hget. unfold update_task, bind, session_get. cbn [fst snd].
  rewrite Hget. reflexivity.
Qed.

Lemma delete_task_eq task_id w :
  delete_task task_id w =
  match tasks w !! task_id with
  | Some task =>
      (Ok tt,
       {| tasks := delete (Task.id task) (tasks w);
          clock_reads := clock_reads w;
          uuid_draws := uuid_draws w |})
  | None => (Raise NotFound, w)
  end.
Proof.
  unfold delete_task, bind, session_get. cbn [fst snd].
  destruct (tasks w !! task_id); reflexivity.
Qed.

Lemma apply_filters_eq stmt status_ q w :
  apply_filters stmt status_ q w =
  if opt_str_truthy q then (Raise AttributeError, w)
  else (Ok match status_ with
           | Some s => stmt_where stmt (status_eq s)
           | None => stmt
           end, w).
Proof. unfold apply_filters. destruct (opt_str_truthy q); reflexivity. Qed.

Lemma list_tasks_eq status_ q limit offset w :
  list_tasks status_ q limit offset w =
  if opt_str_truthy q then (Raise AttributeError, w)
  else if sqlite_integer limit && sqlite_integer offset
       then (Ok (map from_orm
                   (apply_limit (Some limit)
                      (apply_offset (Some offset) (listed_rows status_ (tasks w))))),
             w)
       else (Raise OverflowError, w).
Proof.
  unfold list_tasks, bind. rewrite apply_filters_eq.
  destruct (opt_str_truthy q); [reflexivity|].
  unfold session_exec_all, ret, listed_rows, listing_stmt, run_select.
  destruct status_;
    cbn [limit_clause offset_clause stmt_offset stmt_limit stmt_where stmt_order_by
         select_Task bindable whereclause order_by_clause apply_limit apply_offset];
    destruct (sqlite_integer limit && sqlite_integer offset); reflexivity.
Qed.

(** Whatever its outcome, [list_tasks] leaves the state as it was. *)
Lemma list_tasks_state status_ q limit offset w :
  snd (list_tasks status_ q limit offset w) = w.
Proof.
  rewrite list_tasks_eq.
  destruct (opt_str_truthy q), (sqlite_integer limit && sqlite_integer offset);
    reflexivity.
Qed.

Lemma list_tasks_Ok status_ q limit offset w rs :
  fst (list_tasks status_ q limit offset w) = Ok rs ->
  opt_str_truthy q = false /\
  rs = map from_orm
         (apply_limit (Some limit)
            (apply_offset (Some offset) (listed_rows status_ (tasks w)))).
Proof.
  rewrite list_tasks_eq.
  destruct (opt_str_truthy q); [discriminate|].
  destruct (sqlite_integer limit && sqlite_integer offset); [|discriminate].
  cbn [fst]. intros [= <-]. split; reflexivity.
Qed.

(** *** Invariants of the reachable worlds *)

Lemma updated_row_id env payload task w :
  Task.id (updated_row env payload task w) = Task.id task.
Proof.
  unfold updated_row. cbn [set_updated_at Task.id].
  apply apply_payload_frame.
Qed.

Lemma serve_table_wf env r w :
  table_wf (tasks w) -> table_wf (tasks (serve env r w)).
Proof.
  intros Hwf. destruct r as [payload|task_id|s q l o|task_id payload|task_id];
    cbn [serve].
  - rewrite create_task_eq. cbv zeta.
    destruct (tasks w !! _) eqn:E; cbn [snd tasks]; [exact Hwf|].
    intros k row. rewrite lookup_insert. case_decide.
    + intros [= <-]. assumption.
    + apply Hwf.
  - rewrite get_task_eq. destruct (tasks w !! task_id); exact Hwf.
  - rewrite list_tasks_state. exact Hwf.
  - destruct (tasks w !! task_id) as [task|] eqn:E.
    + rewrite (update_task_eq _ _ _ _ _ E).
      destruct (snd (apply_payload payload task)); cbn [snd tasks]; [|exact Hwf].
      intros k row. rewrite lookup_insert. case_decide.
      * intros [= <-]. rewrite updated_row_id. assumption.
      * apply Hwf.
    + rewrite (update_task_missing _ _ _ _ E). exact Hwf.
  - rewrite delete_task_eq. destruct (tasks w !! task_id) as [task|] eqn:E;
      cbn [snd tasks]; [|exact Hwf].
    intros k row. rewrite lookup_delete. case_decide; [discriminate|apply Hwf].
Qed.

Lemma reachable_table_wf env w : reachable env w -> table_wf (tasks w).
Proof.
  induction 1 as [|w r _ IH].
  - intros k row. cbn [initial_world tasks]. rewrite lookup_empty. discriminate.
  - apply serve_table_wf, IH.
Qed.

Lemma serve_timestamps_ok env r w :
  monotonic_clock env -> timestamps_ok env w -> timestamps_ok env (serve env r w).
Proof.
  intros Hmono Hok.
  destruct r as [payload|task_id|s q l o|task_id payload|task_id];
    cbn [serve].
  - rewrite create_task_eq. cbv zeta.
    destruct (tasks w !! _) eqn:E; cbn [snd]; intros k row;
      cbn [tasks clock_reads].
    + intros Hrow. destruct (Hok k row Hrow) as [H1 H2]. split; [exact H1|].
      intros n Hn. apply H2. lia.
    + rewrite lookup_insert. case_decide.
      * intros [= <-]. cbn [new_row Task.created_at Task.updated_at].
        split; [apply Hmono; lia|]. intros n Hn. apply Hmono. lia.
      * intros Hrow. destruct (Hok k row Hrow) as [H1 H2]. split; [exact H1|].
        intros n Hn. apply H2. lia.
  - rewrite get_task_eq. destruct (tasks w !! task_id); exact Hok.
  - rewrite list_tasks_state. exact Hok.
  - destruct (tasks w !! task_id) as [task|] eqn:E.
    + rewrite (update_task_eq _ _ _ _ task E).
      destruct (snd (apply_payload payload task)); cbn [snd]; [|exact Hok].
      intros k row. cbn [tasks clock_reads]. rewrite lookup_insert.
      destruct (Hok _ _ E) as [H1 H2].
      case_decide.
      * intros [= <-].
        unfold updated_row.
        cbn [set_updated_at Task.created_at Task.updated_at].
        destruct (apply_payload_frame payload task) as (_ & -> & _).
        split.
        -- etransitivity; [exact H1|]. apply H2. lia.
        -- intros n Hn. apply Hmono. lia.
      * intros Hrow. destruct (Hok k row Hrow) as [H3 H4]. split; [exact H3|].
        intros n Hn. apply H4. lia.
    + rewrite (update_task_missing _ _ _ _ E). exact Hok.
  - rewrite delete_task_eq.
    destruct (tasks w !! task_id) as [task|] eqn:E; cbn [snd]; [|exact Hok].
    intros k row. cbn [tasks clock_reads]. rewrite lookup_delete.
    case_decide; [discriminate|]. apply Hok.
Qed.

Lemma reachable_timestamps_ok env w :
  monotonic_clock env -> reachable env w -> timestamps_ok env w.
Proof.
  intros Hmono. induction 1 as [|w r _ IH].
  - intros k row. cbn [initial_world tasks]. rewrite lookup_empty. discriminate.
  - apply serve_timestamps_ok; assumption.
Qed.

(** ** C1: reading a task back right after creating it *)

(** C1 (as stated, refuted): the record read back after [create_task] need
    not have [created_at = updated_at].  With a clock that advances between
    two readings, the record created first in an empty store has
    [created_at = 0] and [updated_at = 1]. *)
Lemma C1_created_at_differs_from_updated_at :
  exists r w' r',
    create_task ticking_env buy_milk initial_world = (Ok r, w') /\
    get_task (TaskRead.id r) w' = (Ok r', w') /\
    TaskRead.created_at r' <> TaskRead.updated_at r'.
Proof.
  exists (from_orm (new_row ticking_env buy_milk initial_world)).
  exists world_A.
  exists (from_orm (new_row ticking_env buy_milk initial_world)).
  split; [|split].
  - reflexivity.
  - rewrite get_task_eq. reflexivity.
  - cbn. discriminate.
Qed.

(** C1 (amended): when the drawn id is free, [create_task] succeeds and
    [get_task] on the new id, called right after, returns the very record
    that was created: title and description as requested, status as
    requested or [created] by default.  Its [created_at] and [updated_at]
    are two successive readings of the clock, [created_at] first; hence
    [created_at <= updated_at] under a monotonic clock. *)
Theorem C1_get_after_create env payload w :
  tasks w !! uuids env (uuid_draws w) = None ->
  exists r w',
    create_task env payload w = (Ok r, w') /\
    get_task (TaskRead.id r) w' = (Ok r, w') /\
    TaskRead.title r = TaskCreate.title payload /\
    TaskRead.description r = TaskCreate.description payload /\
    TaskRead.status r = default created (TaskCreate.status payload) /\
    TaskRead.created_at r = clock env (clock_reads w) /\
    TaskRead.updated_at r = clock env (S (clock_reads w)) /\
    (monotonic_clock env -> TaskRead.created_at r <= TaskRead.updated_at r).
Proof.
  intros Hfresh. rewrite create_task_eq. cbv zeta.
  cbn [new_row Task.id]. rewrite Hfresh.
  eexists _, _. split; [reflexivity|].
  rewrite get_task_eq. cbn [from_orm TaskRead.id Task.id tasks new_row].
  rewrite lookup_insert_eq.
  repeat split.
  intros Hmono. cbn. apply Hmono. lia.
Qed.

Lemma C1_get_after_create_witness :
  exists r w',
    create_task ticking_env walk_dog world_A = (Ok r, w') /\
    get_task (TaskRead.id r) w' = (Ok r, w') /\
    TaskRead.title r = TaskCreate.title walk_dog /\
    TaskRead.description r = TaskCreate.description walk_dog /\
    TaskRead.status r = default created (TaskCreate.status walk_dog) /\
    TaskRead.created_at r = clock ticking_env (clock_reads world_A) /\
    TaskRead.updated_at r = clock ticking_env (S (clock_reads world_A)) /\
    (monotonic_clock ticking_env -> TaskRead.created_at r <= TaskRead.updated_at r).
Proof.
  apply (C1_get_after_create ticking_env walk_dog world_A).
  vm_compute. reflexivity.
Defined.

(** ** C3, C4, C10: partial update *)

Lemma ticking_env_monotonic : monotonic_clock ticking_env.
Proof. intros i j Hij. cbn. lia. Qed.

Lemma world_A_reachable : reachable ticking_env world_A.
Proof. apply reachable_serve, reachable_init. Qed.

Lemma world_AB_reachable : reachable ticking_env world_AB.
Proof. apply reachable_serve, world_A_reachable. Qed.

(** C3 (as stated, refuted): after an update that changes a field,
    [updated_at] is the current clock reading, which can be earlier than the
    previous [updated_at] when the clock has been set back in between. *)
Lemma C3_updated_at_can_go_back :
  exists task r w',
    tasks world_adjusted !! 10%N = Some task /\
    changes mark_completed task /\
    update_task adjusted_env 10%N mark_completed world_adjusted = (Ok r, w') /\
    TaskRead.updated_at r < Task.updated_at task.
Proof.
  exists (new_row adjusted_env buy_milk initial_world).
  eexists _, _. split; [reflexivity|]. split; [|split].
  - right; right. exists completed. split; [reflexivity|discriminate].
  - rewrite (update_task_eq _ _ _ _ (new_row adjusted_env buy_milk initial_world));
      reflexivity.
  - reflexivity.
Qed.

(** C3 (amended): an update of an existing task overwrites each of title,
    description and status exactly when the field is provided and differs
    from the stored value, leaving id and created_at alone; when at least
    one field is so overwritten, [updated_at] becomes the current clock
    reading and the row is persisted, as [get_task] then shows.  The new
    [updated_at] is at least the previous one provided the clock is
    monotonic over the request sequence that built the store. *)
Theorem C3_update_changed env task_id payload w task :
  table_wf (tasks w) ->
  tasks w !! task_id = Some task ->
  exists r w',
    update_task env task_id payload w = (Ok r, w') /\
    (forall v, TaskUpdate.title payload = Some v -> v <> Task.title task ->
       TaskRead.title r = v) /\
    (~ (exists v, TaskUpdate.title payload = Some v /\ v <> Task.title task) ->
       TaskRead.title r = Task.title task) /\
    (forall v, TaskUpdate.description payload = Some v ->
       Some v <> Task.description task -> TaskRead.description r = Some v) /\
    (~ (exists v, TaskUpdate.description payload = Some v /\
                  Some v <> Task.description task) ->
       TaskRead.description r = Task.description task) /\
    (forall v, TaskUpdate.status payload = Some v -> v <> Task.status task ->
       TaskRead.status r = v) /\
    (~ (exists v, TaskUpdate.status payload = Some v /\ v <> Task.status task) ->
       TaskRead.status r = Task.status task) /\
    TaskRead.id r = task_id /\
    TaskRead.created_at r = Task.created_at task /\
    (changes payload task ->
       TaskRead.updated_at r = clock env (clock_reads w) /\
       (exists row, r = from_orm row /\ tasks w' = <[task_id := row]> (tasks w)) /\
       get_task task_id w' = (Ok r, w') /\
       (monotonic_clock env -> reachable env w ->
          Task.updated_at task <= TaskRead.updated_at r)).
Proof.
  intros Hwf Hget.
  pose proof (Hwf _ _ Hget) as Hid.
  pose proof (apply_payload_title payload task) as Ht.
  pose proof (apply_payload_description payload task) as Hd.
  pose proof (apply_payload_status payload task) as Hs.
  pose proof (apply_payload_frame payload task) as (Hi & Hc & Hu).
  rewrite (update_task_eq _ _ _ _ _ Hget).
  destruct (snd (apply_payload payload task)) eqn:Hupd.
  - cbv zeta. eexists _, _. split; [reflexivity|].
    unfold updated_row.
    cbn [from_orm set_updated_at TaskRead.title TaskRead.description TaskRead.status
         TaskRead.id TaskRead.created_at TaskRead.updated_at
         Task.id Task.title Task.description Task.status Task.created_at
         Task.updated_at].
    rewrite Ht, Hd, Hs, Hi, Hc, Hid.
    repeat apply conj.
    + intros v -> _. reflexivity.
    + intros Hno. destruct (TaskUpdate.title payload) as [v|]; [|reflexivity].
      cbn. destruct (decide (v = Task.title task)) as [->|Hne]; [reflexivity|].
      exfalso. apply Hno. eauto.
    + intros v -> _. reflexivity.
    + intros Hno. destruct (TaskUpdate.description payload) as [v|]; [|reflexivity].
      destruct (decide (Some v = Task.description task)) as [->|Hne]; [reflexivity|].
      exfalso. apply Hno. eauto.
    + intros v -> _. reflexivity.
    + intros Hno. destruct (TaskUpdate.status payload) as [v|]; [|reflexivity].
      cbn. destruct (decide (v = Task.status task)) as [->|Hne]; [reflexivity|].
      exfalso. apply Hno. eauto.
    + reflexivity.
    + reflexivity.
    + intros _. repeat apply conj.
      * reflexivity.
      * eexists. split; [|reflexivity]. unfold from_orm. cbn.
        rewrite Ht, Hd, Hs, Hi, Hc, Hid. reflexivity.
      * rewrite get_task_eq. cbn [tasks]. rewrite lookup_insert_eq.
        unfold from_orm. cbn. rewrite Ht, Hd, Hs, Hi, Hc, Hid. reflexivity.
      * intros Hmono Hreach.
        destruct (reachable_timestamps_ok _ _ Hmono Hreach _ _ Hget) as [_ Hle].
        apply Hle. lia.
  - apply apply_payload_not_updated in Hupd.
    eexists _, _. split; [reflexivity|].
    cbn [from_orm TaskRead.title TaskRead.description TaskRead.status
         TaskRead.id TaskRead.created_at TaskRead.updated_at].
    repeat apply conj; try reflexivity; try assumption.
    + intros v Hv Hne. exfalso. apply Hupd. left. eauto.
    + intros v Hv Hne. exfalso. apply Hupd. right; left. eauto.
    + intros v Hv Hne. exfalso. apply Hupd. right; right. eauto.
    + intros Hch. contradiction.
Qed.

Lemma C3_update_changed_witness :
  exists r w',
    update_task ticking_env 10%N mark_completed world_A = (Ok r, w') /\
    (forall v, TaskUpdate.title mark_completed = Some v -> v <> "Buy milk" ->
       TaskRead.title r = v) /\
    (~ (exists v, TaskUpdate.title mark_completed = Some v /\ v <> "Buy milk") ->
       TaskRead.title r = "Buy milk") /\
    (forall v, TaskUpdate.description mark_completed = Some v ->
       Some v <> None -> TaskRead.description r = Some v) /\
    (~ (exists v, TaskUpdate.description mark_completed = Some v /\ Some v <> None) ->
       TaskRead.description r = None) /\
    (forall v, TaskUpdate.status mark_completed = Some v -> v <> created ->
       TaskRead.status r = v) /\
    (~ (exists v, TaskUpdate.status mark_completed = Some v /\ v <> created) ->
       TaskRead.status r = created) /\
    TaskRead.id r = 10%N /\
    TaskRead.created_at r = 0 /\
    (changes mark_completed (new_row ticking_env buy_milk initial_world) ->
       TaskRead.updated_at r = 2 /\
       (exists row, r = from_orm row /\ tasks w' = <[10%N := row]> (tasks world_A)) /\
       get_task 10%N w' = (Ok r, w') /\
       (monotonic_clock ticking_env -> reachable ticking_env world_A ->
          1 <= TaskRead.updated_at r)).
Proof.
  apply (C3_update_changed ticking_env 10%N mark_completed world_A
           (new_row ticking_env buy_milk initial_world)).
  - apply reachable_table_wf with ticking_env. apply world_A_reachable.
  - vm_compute. reflexivity.
Defined.



(** C10: an update whose payload has no description leaves the stored
    description as it was; and whatever the payload, a stored description
    that is not null is not null afterwards. *)
Theorem C10_description_not_cleared env task_id payload w task :
  table_wf (tasks w) ->
  tasks w !! task_id = Some task ->
  exists row w',
    update_task env task_id payload w = (Ok (from_orm row), w') /\
    tasks w' !! task_id = Some row /\
    (TaskUpdate.description payload = None ->
       Task.description row = Task.description task) /\
    (Task.description task <> None -> Task.description row <> None).
Proof.
  intros Hwf Hget.
  pose proof (Hwf _ _ Hget) as Hid.
  pose proof (apply_payload_description payload task) as Hd.
  rewrite (update_task_eq _ _ _ _ _ Hget).
  destruct (snd (apply_payload payload task)).
  - cbv zeta. eexists _, _. split; [reflexivity|].
    cbn [tasks]. rewrite Hid, lookup_insert_eq. split; [reflexivity|].
    unfold updated_row. cbn [set_updated_at Task.description]. rewrite Hd.
    split.
    + intros ->. reflexivity.
    + intros Hsome. destruct (TaskUpdate.description payload); [discriminate|assumption].
  - exists task, w. repeat split; auto.
Qed.

Lemma C10_description_not_cleared_witness :
  exists row w',
    update_task ticking_env 11%N retitle world_AB = (Ok (from_orm row), w') /\
    tasks w' !! 11%N = Some row /\
    (TaskUpdate.description retitle = None ->
       Task.description row = Some "in the park") /\
    (Some "in the park" <> None -> Task.description row <> None).
Proof.
  apply (C10_description_not_cleared ticking_env 11%N retitle world_AB
           (new_row ticking_env walk_dog world_A)).
  - apply reachable_table_wf with ticking_env. apply world_AB_reachable.
  - vm_compute. reflexivity.
Defined.

(** ** C7, C8: NotFound and deletion *)

(** C7: [get_task], [update_task] and [delete_task] raise NotFound exactly
    when the store has no row with the given id, and then leave the state
    as it was.  NotFound is the only domain error of the five handlers:
    the three raise nothing else; whatever [list_tasks] raises is not a
    domain error and leaves the state as it was; and [create_task] can
    only fail in the store (a primary-key collision of the drawn id),
    which leaves the table as it was. *)
Theorem C7_not_found_only env task_id upd new status_ q limit offset w :
  (fst (get_task task_id w) = Raise NotFound <-> tasks w !! task_id = None) /\
  (fst (update_task env task_id upd w) = Raise NotFound <-> tasks w !! task_id = None) /\
  (fst (delete_task task_id w) = Raise NotFound <-> tasks w !! task_id = None) /\
  (forall e, fst (get_task task_id w) = Raise e ->
     e = NotFound /\ snd (get_task task_id w) = w) /\
  (forall e, fst (update_task env task_id upd w) = Raise e ->
     e = NotFound /\ snd (update_task env task_id upd w) = w) /\
  (forall e, fst (delete_task task_id w) = Raise e ->
     e = NotFound /\ snd (delete_task task_id w) = w) /\
  (forall e, fst (list_tasks status_ q limit offset w) = Raise e ->
     is_domain_error e = false /\ snd (list_tasks status_ q limit offset w) = w) /\
  (forall e, fst (create_task env new w) = Raise e ->
     is_domain_error e = false /\ tasks (snd (create_task env new w)) = tasks w).
Proof.
  repeat match goal with |- _ /\ _ => split end.
  - rewrite get_task_eq. destruct (tasks w !! task_id); cbn; split; done.
  - destruct (tasks w !! task_id) as [task|] eqn:E.
    + rewrite (update_task_eq _ _ _ _ _ E).
      destruct (snd (apply_payload upd task)); cbn; split; done.
    + rewrite (update_task_missing _ _ _ _ E). cbn. split; done.
  - rewrite delete_task_eq. destruct (tasks w !! task_id); cbn; split; done.
  - intros e. rewrite get_task_eq. destruct (tasks w !! task_id); cbn.
    + discriminate.
    + intros [= <-]. split; reflexivity.
  - intros e. destruct (tasks w !! task_id) as [task|] eqn:E.
    + rewrite (update_task_eq _ _ _ _ _ E).
      destruct (snd (apply_payload upd task)); cbn; discriminate.
    + rewrite (update_task_missing _ _ _ _ E). cbn.
      intros [= <-]. split; reflexivity.
  - intros e. rewrite delete_task_eq. destruct (tasks w !! task_id); cbn.
    + discriminate.
    + intros [= <-]. split; reflexivity.
  - intros e. rewrite list_tasks_state, list_tasks_eq.
    destruct (opt_str_truthy q); [intros [= <-]; split; reflexivity|].
    destruct (sqlite_integer limit && sqlite_integer offset); [discriminate|].
    intros [= <-]. split; reflexivity.
  - intros e. rewrite create_task_eq. cbv zeta.
    destruct (tasks w !! _); cbn [fst snd tasks].
    + intros [= <-]. split; reflexivity.
    + discriminate.
Qed.

(** C8: deleting an existing task removes its row and no other, and a
    [get_task] on the same id then raises NotFound. *)
Theorem C8_delete_then_get task_id w task :
  table_wf (tasks w) ->
  tasks w !! task_id = Some task ->
  exists w',
    delete_task task_id w = (Ok tt, w') /\
    tasks w' = delete task_id (tasks w) /\
    tasks w' !! task_id = None /\
    (forall k, k <> task_id -> tasks w' !! k = tasks w !! k) /\
    get_task task_id w' = (Raise NotFound, w').
Proof.
  intros Hwf Hget. rewrite delete_task_eq, Hget, (Hwf _ _ Hget).
  eexists. split; [reflexivity|]. cbn [tasks].
  split; [reflexivity|]. split; [apply lookup_delete_eq|].
  split.
  - intros k Hk. apply lookup_delete_ne. congruence.
  - rewrite get_task_eq. cbn [tasks]. rewrite lookup_delete_eq. reflexivity.
Qed.

Lemma C8_delete_then_get_witness :
  exists w',
    delete_task 10%N world_AB = (Ok tt, w') /\
    tasks w' = delete 10%N (tasks world_AB) /\
    tasks w' !! 10%N = None /\
    (forall k, k <> 10%N -> tasks w' !! k = tasks world_AB !! k) /\
    get_task 10%N w' = (Raise NotFound, w').
Proof.
  apply (C8_delete_then_get 10%N world_AB (new_row ticking_env buy_milk initial_world)).
  - apply reachable_table_wf with ticking_env. apply world_AB_reachable.
  - vm_compute. reflexivity.
Defined.

(** ** C9: updated_at is never before created_at *)

(** C9: under a monotonic clock, every row of every store reached by a
    sequence of requests (creations, updates, and the others) has
    [updated_at >= created_at]. *)
Theorem C9_updated_at_ge_created_at env w k row :
  monotonic_clock env ->
  reachable env w ->
  tasks w !! k = Some row ->
  Task.created_at row <= Task.updated_at row.
Proof.
  intros Hmono Hreach Hrow.
  apply (reachable_timestamps_ok env w Hmono Hreach k row Hrow).
Qed.

Lemma C9_updated_at_ge_created_at_witness :
  Task.created_at
    (updated_row ticking_env mark_completed
       (new_row ticking_env buy_milk initial_world) world_AB) <=
  Task.updated_at
    (updated_row ticking_env mark_completed
       (new_row ticking_env buy_milk initial_world) world_AB).
Proof.
  apply (C9_updated_at_ge_created_at ticking_env world_AB_done 10%N).
  - intros i j Hij. cbn. lia.
  - unfold world_AB_done, world_AB, world_A.
    repeat apply reachable_serve. apply reachable_init.
  - vm_compute. reflexivity.
Defined.

(** ** Ordering: the stable insertion sort behind ORDER BY *)

Section Sorting.
Context {A : Type} (before : A -> A -> bool).
Hypothesis before_total : forall a b, before a b = true \/ before b a = true.
Hypothesis before_trans :
  forall a b c, before a b = true -> before b c = true -> before a c = true.

Lemma sort_insert_perm x l : Permutation (sort_insert before x l) (x :: l).
Proof.
  induction l as [|y l IH]; cbn [sort_insert].
  - apply Permutation_refl.
  - destruct (before x y).
    + apply Permutation_refl.
    + eapply perm_trans; [apply perm_skip, IH|apply perm_swap].
Qed.

Lemma sort_by_perm l : Permutation (sort_by before l) l.
Proof.
  induction l as [|x l IH]; cbn [sort_by fold_right].
  - apply perm_nil.
  - eapply perm_trans; [apply sort_insert_perm|apply perm_skip, IH].
Qed.

Lemma sort_insert_sorted x l :
  StronglySorted (fun a b => before a b = true) l ->
  StronglySorted (fun a b => before a b = true) (sort_insert before x l).
Proof.
  induction l as [|y l IH]; cbn [sort_insert]; intros Hs.
  - constructor; constructor.
  - inversion Hs as [|? ? Hl Hy]; subst.
    destruct (before x y) eqn:E.
    + constructor; [exact Hs|].
      constructor; [exact E|].
      eapply Forall_impl; [exact Hy|]. intros z Hz. cbv beta in Hz.
      eapply before_trans; eassumption.
    + constructor; [apply IH, Hl|].
      assert (Hyx : before y x = true).
      { destruct (before_total x y); congruence. }
      eapply Permutation_Forall.
      * apply Permutation_sym, sort_insert_perm.
      * constructor; assumption.
Qed.

Lemma sort_by_sorted l : StronglySorted (fun a b => before a b = true) (sort_by before l).
Proof.
  induction l as [|x l IH]; cbn [sort_by fold_right].
  - constructor.
  - apply sort_insert_sorted, IH.
Qed.

End Sorting.

Lemma created_at_desc_total a b :
  created_at_desc a b = true \/ created_at_desc b a = true.
Proof. unfold created_at_desc. rewrite !Z.leb_le. lia. Qed.

Lemma created_at_desc_trans a b c :
  created_at_desc a b = true -> created_at_desc b c = true -> created_at_desc a c = true.
Proof. unfold created_at_desc. rewrite !Z.leb_le. lia. Qed.

Lemma StronglySorted_weaken {A} (R1 R2 : A -> A -> Prop) l :
  (forall a b, R1 a b -> R2 a b) -> StronglySorted R1 l -> StronglySorted R2 l.
Proof.
  intros Himp. induction 1 as [|x l Hl IH Hx]; constructor.
  - exact IH.
  - eapply Forall_impl; [exact Hx|]. intros b. apply Himp.
Qed.

Lemma sort_created_at_desc_sorted rows :
  StronglySorted created_at_ge (sort_by created_at_desc rows).
Proof.
  apply StronglySorted_weaken with (R1 := fun a b => created_at_desc a b = true).
  - intros a b. unfold created_at_desc, created_at_ge. apply Z.leb_le.
  - apply sort_by_sorted; [apply created_at_desc_total|apply created_at_desc_trans].
Qed.

(** ** C5, C6, C2: listing *)

Lemma listing_stmt_clauses status_ :
  order_by_clause (listing_stmt status_) = Some created_at_desc /\
  limit_clause (listing_stmt status_) = None /\
  offset_clause (listing_stmt status_) = None.
Proof. destruct status_; repeat split. Qed.

Lemma listed_rows_eq status_ table :
  listed_rows status_ table = sort_by created_at_desc (filtered_rows status_ table).
Proof.
  unfold listed_rows, run_select, filtered_rows.
  destruct (listing_stmt_clauses status_) as (-> & -> & ->). reflexivity.
Qed.

Lemma table_scan_In table row :
  In row (table_scan table) <-> exists k, table !! k = Some row.
Proof.
  unfold table_scan. rewrite <- list_elem_of_In, list_elem_of_fmap. split.
  - intros ([k r] & -> & Hin). exists k. apply elem_of_map_to_list in Hin. exact Hin.
  - intros (k & Hk). exists (k, row). split; [reflexivity|].
    apply elem_of_map_to_list. exact Hk.
Qed.

Lemma status_eq_true s row :
  sql_is_true (status_eq s row) = true <-> Task.status row = s.
Proof.
  unfold status_eq. cbn [sql_is_true].
  destruct (bool_decide_reflect (Task.status row = s)); split; congruence.
Qed.

Lemma row_selected_listing status_ row :
  row_selected (whereclause (listing_stmt status_)) row = true <->
  status_filter_ok status_ row.
Proof.
  unfold status_filter_ok.
  destruct status_ as [s|];
    cbn [listing_stmt stmt_where whereclause stmt_order_by select_Task app
         row_selected forallb].
  - rewrite andb_true_r, status_eq_true. split.
    + intros H s' [= <-]. exact H.
    + intros H. apply H. reflexivity.
  - split; [intros _ s [=]|reflexivity].
Qed.

Lemma page_valid limit offset rows :
  0 <= limit ->
  apply_limit (Some limit) (apply_offset (Some offset) rows) = page limit offset rows.
Proof.
  intros Hl. unfold apply_limit, apply_offset, page.
  destruct (Z.ltb_spec limit 0); [lia|reflexivity].
Qed.

Lemma paged_In limit offset (rows : list Task.t) row :
  In row (apply_limit limit (apply_offset offset rows)) -> In row rows.
Proof.
  rewrite <- !list_elem_of_In. intros Hin.
  assert (Hoff : row ∈ apply_offset offset rows).
  { destruct limit as [n|]; cbn [apply_limit] in Hin; [|exact Hin].
    destruct (n <? 0)%Z; [exact Hin|]. eapply subseteq_take; exact Hin. }
  destruct offset as [n|]; cbn [apply_offset] in Hoff; [|exact Hoff].
  eapply subseteq_drop; exact Hoff.
Qed.

Lemma listed_rows_In status_ table row :
  In row (listed_rows status_ table) <->
  (exists k, table !! k = Some row) /\ status_filter_ok status_ row.
Proof.
  rewrite listed_rows_eq.
  rewrite <- table_scan_In, <- row_selected_listing.
  unfold filtered_rows. rewrite <- filter_In.
  split; apply Permutation_in;
    [apply sort_by_perm|apply Permutation_sym, sort_by_perm].
Qed.

Lemma sqlite_integer_in_range n : - 2 ^ 63 <= n < 2 ^ 63 -> sqlite_integer n = true.
Proof.
  intros H. unfold sqlite_integer. apply andb_true_iff.
  split; [apply Z.leb_le|apply Z.ltb_lt]; lia.
Qed.

(** With no query and integers in range, [list_tasks] returns a page of
    the listed rows. *)
Lemma list_tasks_page status_ q limit offset w :
  opt_str_truthy q = false ->
  0 <= limit < 2 ^ 63 ->
  0 <= offset < 2 ^ 63 ->
  list_tasks status_ q limit offset w =
  (Ok (map from_orm (page limit offset (listed_rows status_ (tasks w)))), w).
Proof.
  intros Hq Hl Ho. rewrite list_tasks_eq, Hq.
  rewrite !sqlite_integer_in_range by lia. cbn [andb].
  rewrite page_valid by lia. reflexivity.
Qed.

(** C5 (as stated, refuted): a valid limit and an offset >= 0 do not
    exclude an error.  The offset 2^63 passes the only check on it
    ([ge=0]) and cannot be bound as an SQLite integer, so the listing
    raises OverflowError; and a non-empty query makes [apply_filters]
    raise before any statement is run. *)
Lemma C5_list_can_raise :
  fst (list_tasks None None 20 (2 ^ 63) world_AB) = Raise OverflowError /\
  fst (list_tasks None (Some "milk") 20 0 world_AB) = Raise AttributeError.
Proof. split; reflexivity. Qed.

(** C5 (amended): without a query string, for a limit in [1,100] and an
    offset in [0, 2^63), [list_tasks] returns a page of the filtered rows
    sorted by created_at descending: it skips exactly the first [offset]
    rows of that sorted list and keeps at most [limit] of the rest; an
    offset at or past the end gives the empty list, and the call neither
    raises nor changes the state. *)
Theorem C5_list_sorted_page status_ q limit offset w :
  opt_str_truthy q = false ->
  1 <= limit <= 100 ->
  0 <= offset < 2 ^ 63 ->
  exists full,
    Permutation full (filtered_rows status_ (tasks w)) /\
    StronglySorted created_at_ge full /\
    list_tasks status_ q limit offset w =
      (Ok (map from_orm (page limit offset full)), w) /\
    (forall i : nat, (i < Z.to_nat limit)%nat ->
       page limit offset full !! i = full !! (Z.to_nat offset + i)%nat) /\
    length (page limit offset full) =
      Nat.min (Z.to_nat limit) (length full - Z.to_nat offset) /\
    (length (page limit offset full) <= Z.to_nat limit)%nat /\
    ((length full <= Z.to_nat offset)%nat ->
       list_tasks status_ q limit offset w = (Ok [], w)).
Proof.
  intros Hq Hl Ho. exists (listed_rows status_ (tasks w)).
  assert (Hlist : list_tasks status_ q limit offset w =
            (Ok (map from_orm (page limit offset (listed_rows status_ (tasks w)))), w)).
  { apply list_tasks_page; [exact Hq|lia|exact Ho]. }
  repeat match goal with |- _ /\ _ => split end.
  - rewrite listed_rows_eq. apply sort_by_perm.
  - rewrite listed_rows_eq. apply sort_created_at_desc_sorted.
  - exact Hlist.
  - intros i Hi. unfold page. rewrite lookup_take_lt by exact Hi. apply lookup_drop.
  - unfold page. rewrite length_take, length_drop. reflexivity.
  - unfold page. rewrite length_take. lia.
  - intros Hend. rewrite Hlist. unfold page. rewrite drop_ge by exact Hend.
    rewrite take_nil. reflexivity.
Qed.

Lemma C5_list_sorted_page_witness :
  exists full,
    Permutation full (filtered_rows None (tasks world_AB)) /\
    StronglySorted created_at_ge full /\
    list_tasks None None 1 1 world_AB = (Ok (map from_orm (page 1 1 full)), world_AB) /\
    (forall i : nat, (i < Z.to_nat 1)%nat ->
       page 1 1 full !! i = full !! (Z.to_nat 1 + i)%nat) /\
    length (page 1 1 full) = Nat.min (Z.to_nat 1) (length full - Z.to_nat 1) /\
    (length (page 1 1 full) <= Z.to_nat 1)%nat /\
    ((length full <= Z.to_nat 1)%nat -> list_tasks None None 1 1 world_AB = (Ok [], world_AB)).
Proof.
  apply (C5_list_sorted_page None None 1 1 world_AB); [reflexivity|lia|lia].
Defined.

(** C6 (the code departs from it): with a status and a non-empty query
    both present, [list_tasks] raises AttributeError instead of returning
    the rows that satisfy both filters.  What the code does deliver is
    the status filter alone: whenever a listing is returned there is no
    query, the rows paged through are exactly the stored rows with the
    requested status (every stored row when no status is given), and
    every returned record has the requested status. *)
Theorem C6_status_filter_holds_query_raises status_ q limit offset w :
  (forall s, status_ = Some s -> opt_str_truthy q = true ->
     list_tasks status_ q limit offset w = (Raise AttributeError, w)) /\
  (forall rs, fst (list_tasks status_ q limit offset w) = Ok rs ->
     opt_str_truthy q = false /\
     exists full,
       rs = map from_orm (apply_limit (Some limit) (apply_offset (Some offset) full)) /\
       (forall row, In row full <->
          (exists k, tasks w !! k = Some row) /\ status_filter_ok status_ row) /\
       (forall r s, In r rs -> status_ = Some s -> TaskRead.status r = s) /\
       (status_ = None -> Permutation full (table_scan (tasks w)))).
Proof.
  split.
  - intros s _ Hq. rewrite list_tasks_eq, Hq. reflexivity.
  - intros rs Hrs. apply list_tasks_Ok in Hrs as [Hq ->]. split; [exact Hq|].
    exists (listed_rows status_ (tasks w)).
    repeat match goal with |- _ /\ _ => split end.
    + reflexivity.
    + apply listed_rows_In.
    + intros r s Hin Hs. apply in_map_iff in Hin as (row & <- & Hin).
      apply (paged_In (Some limit) (Some offset)), listed_rows_In in Hin as (_ & Hst).
      cbn [from_orm TaskRead.status]. apply Hst, Hs.
    + intros ->. rewrite listed_rows_eq.
      eapply perm_trans; [apply sort_by_perm|].
      unfold filtered_rows. cbn [listing_stmt stmt_order_by select_Task whereclause].
      change (row_selected []) with (fun _ : Task.t => true).
      rewrite List.filter_true. apply Permutation_refl.
Qed.

(** C2 (the code departs from it): for every non-empty query string
    [list_tasks] raises AttributeError, in every store and under every
    status, limit and offset: [apply_filters] calls [lower()] on a mapped
    column, which has no such attribute.  No record is returned, matching
    or not, and the state is left as it was. *)
Theorem C2_query_filter_raises status_ q limit offset w :
  q <> "" ->
  list_tasks status_ (Some q) limit offset w = (Raise AttributeError, w).
Proof.
  intros Hq. rewrite list_tasks_eq.
  destruct q as [|c q']; [contradiction|reflexivity].
Qed.

Lemma C2_query_filter_raises_witness :
  list_tasks None (Some "milk") 20 0 world_AB = (Raise AttributeError, world_AB).
Proof.
  apply (C2_query_filter_raises None "milk" 20 0 world_AB). discriminate.
Defined.

(** ** The scenario of the specification, run on the model *)

Example scenario_list_completed :
  fst (list_tasks (Some completed) None 20 0 world_AB) =
  Ok [from_orm (new_row ticking_env walk_dog world_A)].
Proof. vm_compute. reflexivity. Qed.

Example scenario_list_q_milk :
  fst (list_tasks None (Some "milk") 20 0 world_AB) = Raise AttributeError.
Proof. vm_compute. reflexivity. Qed.

Example scenario_list_after_update :
  map TaskRead.title
    (match fst (list_tasks (Some completed) None 20 0 world_AB_done) with
     | Ok rs => rs
     | Raise _ => []
     end) =
  ["Walk dog"; "Buy milk"].
Proof. vm_compute. reflexivity. Qed.

Example scenario_list_after_delete :
  fst (list_tasks None None 20 0 (serve ticking_env (DELETE_task 10%N) world_AB)) =
  Ok [from_orm (new_row ticking_env walk_dog world_A)].
Proof. vm_compute. reflexivity. Qed.

Example scenario_offset_past_end :
  fst (list_tasks None None 20 7 world_AB) = Ok [].
Proof. vm_compute. reflexivity. Qed.

(** ** Further properties of the handlers *)

(** *** Listings and the rows behind them *)

Lemma submseteq_NoDup {A} (l k : list A) : l ⊆+ k -> NoDup k -> NoDup l.
Proof.
  intros Hsub Hk. apply submseteq_Permutation in Hsub as [k' Hperm].
  rewrite Hperm in Hk. apply NoDup_app in Hk as (Hl & _ & _). exact Hl.
Qed.

Lemma List_filter_submseteq {A} (f : A -> bool) (l : list A) : List.filter f l ⊆+ l.
Proof.
  induction l as [|x l IH]; cbn [List.filter].
  - constructor.
  - destruct (f x); [apply submseteq_skip|apply submseteq_cons]; exact IH.
Qed.

Lemma paged_submseteq limit offset (rows : list Task.t) :
  apply_limit limit (apply_offset offset rows) ⊆+ rows.
Proof.
  transitivity (apply_offset offset rows).
  - destruct limit as [n|]; cbn [apply_limit]; [|reflexivity].
    destruct (n <? 0)%Z; [reflexivity|].
    apply sublist_submseteq, sublist_take.
  - destruct offset as [n|]; cbn [apply_offset]; [|reflexivity].
    apply sublist_submseteq, sublist_drop.
Qed.

Lemma listed_rows_submseteq status_ table :
  listed_rows status_ table ⊆+ table_scan table.
Proof.
  rewrite listed_rows_eq.
  transitivity (filtered_rows status_ table).
  - apply Permutation_submseteq, sort_by_perm.
  - apply List_filter_submseteq.
Qed.

Lemma table_scan_ids table :
  table_wf table -> map Task.id (table_scan table) = (map_to_list table).*1.
Proof.
  intros Hwf. unfold table_scan.
  assert (Hall : Forall (fun kr => Task.id kr.2 = kr.1) (map_to_list table)).
  { apply Forall_forall. intros [k row] Hin. apply elem_of_map_to_list in Hin.
    cbn. apply Hwf. exact Hin. }
  induction Hall as [|[k row] l Hx _ IH]; [reflexivity|].
  cbn in *. rewrite Hx, IH. reflexivity.
Qed.

Lemma from_orm_ids rows : map TaskRead.id (map from_orm rows) = map Task.id rows.
Proof. induction rows as [|r rows IH]; cbn; [reflexivity|]. rewrite IH. reflexivity. Qed.

(** X2: [list_tasks] never returns the same task twice: the ids of the
    returned records are pairwise distinct. *)
Theorem X2_list_ids_distinct status_ q limit offset w rs :
  table_wf (tasks w) ->
  fst (list_tasks status_ q limit offset w) = Ok rs ->
  NoDup (map TaskRead.id rs).
Proof.
  intros Hwf Hrs. apply list_tasks_Ok in Hrs as [_ ->].
  rewrite from_orm_ids.
  apply submseteq_NoDup with (k := map Task.id (table_scan (tasks w))).
  - apply fmap_submseteq.
    etransitivity;
      [apply (paged_submseteq (Some limit) (Some offset))|apply listed_rows_submseteq].
  - rewrite (table_scan_ids _ Hwf). apply NoDup_fst_map_to_list.
Qed.

Lemma X2_list_ids_distinct_witness :
  NoDup (map TaskRead.id
           [from_orm (new_row ticking_env walk_dog world_A);
            from_orm (new_row ticking_env buy_milk initial_world)]).
Proof.
  apply (X2_list_ids_distinct None None 20 0 world_AB).
  - apply reachable_table_wf with ticking_env. apply world_AB_reachable.
  - vm_compute. reflexivity.
Defined.

(** X3: every record returned by [list_tasks] can be fetched: [get_task]
    on its id returns that same record. *)
Theorem X3_list_then_get status_ q limit offset w rs r :
  table_wf (tasks w) ->
  fst (list_tasks status_ q limit offset w) = Ok rs ->
  In r rs ->
  get_task (TaskRead.id r) w = (Ok r, w).
Proof.
  intros Hwf Hrs Hin. apply list_tasks_Ok in Hrs as [_ ->].
  apply in_map_iff in Hin as (row & <- & Hin).
  apply (paged_In (Some limit) (Some offset)), listed_rows_In in Hin as ((k & Hk) & _).
  rewrite get_task_eq. cbn [from_orm TaskRead.id].
  rewrite (Hwf _ _ Hk), Hk. reflexivity.
Qed.

Lemma X3_list_then_get_witness :
  get_task (TaskRead.id (from_orm (new_row ticking_env buy_milk initial_world))) world_AB =
  (Ok (from_orm (new_row ticking_env buy_milk initial_world)), world_AB).
Proof.
  apply (X3_list_then_get (Some created) None 20 0 world_AB
           [from_orm (new_row ticking_env buy_milk initial_world)]).
  - apply reachable_table_wf with ticking_env. apply world_AB_reachable.
  - vm_compute. reflexivity.
  - left. reflexivity.
Defined.

(** *** Updates *)

Lemma apply_payload_twice payload task v :
  snd (apply_payload payload (set_updated_at v (fst (apply_payload payload task)))) = false.
Proof.
  apply apply_payload_not_updated.
  pose proof (apply_payload_title payload task) as Ht.
  pose proof (apply_payload_description payload task) as Hd.
  pose proof (apply_payload_status payload task) as Hs.
  unfold changes. cbn [set_updated_at Task.title Task.description Task.status].
  rewrite Ht, Hd, Hs.
  intros [(x & Hx & Hne)|[(x & Hx & Hne)|(x & Hx & Hne)]];
    rewrite Hx in Hne; apply Hne; reflexivity.
Qed.

(** X4: [update_task] is idempotent: sending the same payload for the same
    id a second time returns the same response and leaves the state,
    [updated_at] included, exactly as the first call left it. *)
Theorem X4_update_idempotent env task_id payload w :
  table_wf (tasks w) ->
  update_task env task_id payload (snd (update_task env task_id payload w)) =
  update_task env task_id payload w.
Proof.
  intros Hwf. destruct (tasks w !! task_id) as [task|] eqn:Hget.
  - rewrite (update_task_eq _ _ _ w task Hget).
    destruct (snd (apply_payload payload task)) eqn:Hupd; cbv zeta; cbn [snd].
    + rewrite (Hwf _ _ Hget).
      erewrite update_task_eq; [|cbn [tasks]; apply lookup_insert_eq].
      unfold updated_row at 1. rewrite apply_payload_twice. reflexivity.
    + rewrite (update_task_eq _ _ _ w task Hget), Hupd. reflexivity.
  - rewrite (update_task_missing _ _ _ w Hget). cbn [snd].
    apply update_task_missing, Hget.
Qed.

Lemma X4_update_idempotent_witness :
  update_task ticking_env 10%N mark_completed
    (snd (update_task ticking_env 10%N mark_completed world_AB)) =
  update_task ticking_env 10%N mark_completed world_AB.
Proof.
  apply (X4_update_idempotent ticking_env 10%N mark_completed world_AB).
  apply reachable_table_wf with ticking_env. apply world_AB_reachable.
Defined.

(** X5: [update_task] touches at most the row it addresses: every other
    row is as before, no row appears or disappears, and no uuid is drawn. *)
Theorem X5_update_frame env task_id payload w :
  table_wf (tasks w) ->
  (forall k, k <> task_id ->
     tasks (snd (update_task env task_id payload w)) !! k = tasks w !! k) /\
  (forall k, is_Some (tasks (snd (update_task env task_id payload w)) !! k) <->
             is_Some (tasks w !! k)) /\
  uuid_draws (snd (update_task env task_id payload w)) = uuid_draws w.
Proof.
  intros Hwf. destruct (tasks w !! task_id) as [task|] eqn:Hget.
  - rewrite (update_task_eq _ _ _ w task Hget).
    destruct (snd (apply_payload payload task)); cbv zeta; cbn [snd tasks uuid_draws];
      [|repeat split; auto].
    rewrite (Hwf _ _ Hget). repeat split.
    + intros k Hk. apply lookup_insert_ne. congruence.
    + rewrite lookup_insert. case_decide; [subst k; rewrite Hget; eauto|auto].
    + rewrite lookup_insert. case_decide; [eauto|auto].
  - rewrite (update_task_missing _ _ _ w Hget). cbn [snd]. repeat split; auto.
Qed.

Lemma X5_update_frame_witness :
  (forall k, k <> 10%N ->
     tasks (snd (update_task ticking_env 10%N retitle world_AB)) !! k =
     tasks world_AB !! k) /\
  (forall k, is_Some (tasks (snd (update_task ticking_env 10%N retitle world_AB)) !! k) <->
             is_Some (tasks world_AB !! k)) /\
  uuid_draws (snd (update_task ticking_env 10%N retitle world_AB)) = uuid_draws world_AB.
Proof.
  apply (X5_update_frame ticking_env 10%N retitle world_AB).
  apply reachable_table_wf with ticking_env. apply world_AB_reachable.
Defined.

(** *** Creation and deletion *)

(** X6: [create_task] succeeds exactly when the drawn uuid is not yet a
    key of the table.  It then adds one row under that key and leaves
    every other row as it was; on a collision it raises the store's
    IntegrityError and the table is unchanged. *)
Theorem X6_create_effect env payload w :
  ((exists r, fst (create_task env payload w) = Ok r) <->
   tasks w !! uuids env (uuid_draws w) = None) /\
  (tasks w !! uuids env (uuid_draws w) = None ->
     size (tasks (snd (create_task env payload w))) = S (size (tasks w)) /\
     tasks (snd (create_task env payload w)) !! uuids env (uuid_draws w) =
       Some (new_row env payload w) /\
     forall k, k <> uuids env (uuid_draws w) ->
       tasks (snd (create_task env payload w)) !! k = tasks w !! k) /\
  (tasks w !! uuids env (uuid_draws w) <> None ->
     fst (create_task env payload w) = Raise IntegrityError /\
     tasks (snd (create_task env payload w)) = tasks w).
Proof.
  rewrite create_task_eq. cbv zeta. cbn [new_row Task.id].
  destruct (tasks w !! uuids env (uuid_draws w)) as [old|] eqn:E; cbn [fst snd tasks].
  - split; [|split].
    + split; [intros (r & Hr); discriminate|discriminate].
    + discriminate.
    + intros _. split; reflexivity.
  - split; [|split].
    + split; [reflexivity|eauto].
    + intros _. split; [apply map_size_insert_None, E|].
      split; [apply lookup_insert_eq|].
      intros k Hk. apply lookup_insert_ne. congruence.
    + intros H. contradiction.
Qed.

(** X7: once a task is deleted, no listing returns a record with its id,
    a further update or delete of that id raises NotFound, and the table
    has one row less. *)
Theorem X7_delete_then_absent env task_id w task :
  table_wf (tasks w) ->
  tasks w !! task_id = Some task ->
  (forall status_ q limit offset rs r,
     fst (list_tasks status_ q limit offset (snd (delete_task task_id w))) = Ok rs ->
     In r rs -> TaskRead.id r <> task_id) /\
  (forall payload,
     fst (update_task env task_id payload (snd (delete_task task_id w))) = Raise NotFound) /\
  fst (delete_task task_id (snd (delete_task task_id w))) = Raise NotFound /\
  S (size (tasks (snd (delete_task task_id w)))) = size (tasks w).
Proof.
  intros Hwf Hget. rewrite delete_task_eq, Hget, (Hwf _ _ Hget). cbn [snd].
  repeat match goal with |- _ /\ _ => split end.
  - intros status_ q limit offset rs r Hrs Hin.
    apply list_tasks_Ok in Hrs as [_ ->]. cbn [tasks] in Hin.
    apply in_map_iff in Hin as (row & <- & Hin).
    apply (paged_In (Some limit) (Some offset)), listed_rows_In in Hin as ((k & Hk) & _).
    cbn [from_orm TaskRead.id].
    apply lookup_delete_Some in Hk as [Hne Hk].
    rewrite (Hwf _ _ Hk). congruence.
  - intros payload. rewrite update_task_missing; [reflexivity|].
    cbn [tasks]. apply lookup_delete_eq.
  - rewrite delete_task_eq. cbn [tasks]. rewrite lookup_delete_eq. reflexivity.
  - cbn [tasks]. rewrite map_size_delete_Some by eauto.
    assert (size (tasks w) <> 0)%nat; [|lia].
    intros Hz. apply map_size_empty_iff in Hz. rewrite Hz, lookup_empty in Hget.
    discriminate.
Qed.

Lemma X7_delete_then_absent_witness :
  (forall status_ q limit offset rs r,
     fst (list_tasks status_ q limit offset (snd (delete_task 10%N world_AB))) = Ok rs ->
     In r rs -> TaskRead.id r <> 10%N) /\
  (forall payload,
     fst (update_task ticking_env 10%N payload (snd (delete_task 10%N world_AB))) =
     Raise NotFound) /\
  fst (delete_task 10%N (snd (delete_task 10%N world_AB))) = Raise NotFound /\
  S (size (tasks (snd (delete_task 10%N world_AB)))) = size (tasks world_AB).
Proof.
  apply (X7_delete_then_absent ticking_env 10%N world_AB
           (new_row ticking_env buy_milk initial_world)).
  - apply reachable_table_wf with ticking_env. apply world_AB_reachable.
  - vm_compute. reflexivity.
Defined.

(** X8: creating a task and deleting it again restores the table:
    [delete_task] on the id returned by a successful [create_task] leaves
    exactly the rows that were there before the creation. *)
Theorem X8_create_then_delete env payload w :
  tasks w !! uuids env (uuid_draws w) = None ->
  exists r w1 w2,
    create_task env payload w = (Ok r, w1) /\
    delete_task (TaskRead.id r) w1 = (Ok tt, w2) /\
    tasks w2 = tasks w.
Proof.
  intros Hfresh. rewrite create_task_eq. cbv zeta. cbn [new_row Task.id].
  rewrite Hfresh. eexists _, _, _. split; [reflexivity|].
  rewrite delete_task_eq. cbn [from_orm TaskRead.id tasks].
  rewrite lookup_insert_eq. cbn [Task.id tasks]. split; [reflexivity|].
  rewrite delete_insert_eq. apply delete_id, Hfresh.
Qed.

Lemma X8_create_then_delete_witness :
  exists r w1 w2,
    create_task ticking_env walk_dog world_A = (Ok r, w1) /\
    delete_task (TaskRead.id r) w1 = (Ok tt, w2) /\
    tasks w2 = tasks world_A.
Proof.
  apply (X8_create_then_delete ticking_env walk_dog world_A).
  vm_compute. reflexivity.
Defined.

(** X9: a task created at a clock reading later than every stored
    [created_at] heads the next listing: without a query, [list_tasks]
    with offset 0 and a limit in [1,100] returns it first, under any
    status filter the new row passes. *)
Theorem X9_created_listed_first env payload w status_ q limit :
  tasks w !! uuids env (uuid_draws w) = None ->
  (forall k row, tasks w !! k = Some row ->
     Task.created_at row < clock env (clock_reads w)) ->
  status_filter_ok status_ (new_row env payload w) ->
  opt_str_truthy q = false ->
  1 <= limit <= 100 ->
  exists rest,
    fst (list_tasks status_ q limit 0 (snd (create_task env payload w))) =
    Ok (from_orm (new_row env payload w) :: rest).
Proof.
  intros Hfresh Hlate Hst Hq Hlimit.
  rewrite create_task_eq. cbv zeta. cbn [new_row Task.id] in *.
  rewrite Hfresh. cbn [snd].
  rewrite list_tasks_page by (try exact Hq; lia). cbn [fst tasks].
  set (new := new_row env payload w) in *.
  set (table' := <[uuids env (uuid_draws w) := new]> (tasks w)).
  pose proof (sort_created_at_desc_sorted (filtered_rows status_ table')) as Hsorted.
  rewrite <- listed_rows_eq in Hsorted.
  assert (Hin : In new (listed_rows status_ table')).
  { apply listed_rows_In. split; [|assumption].
    exists (uuids env (uuid_draws w)). apply lookup_insert_eq. }
  assert (Hold : forall y, In y (listed_rows status_ table') ->
            y = new \/ Task.created_at y < Task.created_at new).
  { intros y Hy. apply listed_rows_In in Hy as ((k & Hk) & _).
    unfold table' in Hk. rewrite lookup_insert in Hk. case_decide.
    - left. congruence.
    - right. apply (Hlate _ _ Hk). }
  destruct (listed_rows status_ table') as [|y rest]; [destruct Hin|].
  assert (y = new) as ->.
  { destruct (Hold y (or_introl eq_refl)) as [Hy|Hy]; [exact Hy|].
    destruct Hin as [Hin|Hin]; [exact Hin|].
    apply StronglySorted_inv in Hsorted as [_ Hall].
    rewrite Forall_forall in Hall. apply list_elem_of_In, Hall in Hin.
    unfold created_at_ge in Hin. lia. }
  unfold page. cbn [skipn Z.to_nat].
  destruct (Z.to_nat limit) as [|n] eqn:En; [lia|].
  cbn [firstn map]. eauto.
Qed.

Lemma X9_created_listed_first_witness :
  exists rest,
    fst (list_tasks (Some completed) None 1 0
           (snd (create_task ticking_env walk_dog world_A))) =
    Ok (from_orm (new_row ticking_env walk_dog world_A) :: rest).
Proof.
  apply (X9_created_listed_first ticking_env walk_dog world_A (Some completed) None 1).
  - vm_compute. reflexivity.
  - intros k row Hrow.
    change (tasks world_A) with
      (<[10%N := new_row ticking_env buy_milk initial_world]> (∅ : gmap UUID Task.t)) in Hrow.
    rewrite lookup_insert in Hrow. case_decide.
    + injection Hrow as <-. vm_compute. reflexivity.
    + rewrite lookup_empty in Hrow. discriminate.
  - intros s Hs. injection Hs as <-. reflexivity.
  - reflexivity.
  - lia.
Defined.

(** *** Validated requests keep the stored text within bounds *)

Lemma serve_row_within_bounds env r w :
  request_valid r = true ->
  (forall k row, tasks w !! k = Some row -> row_within_bounds row) ->
  forall k row, tasks (serve env r w) !! k = Some row -> row_within_bounds row.
Proof.
  intros Hvalid Hinv k row.
  destruct r as [payload|task_id|s q l o|task_id payload|task_id]; cbn [serve].
  - rewrite create_task_eq. cbv zeta.
    destruct (tasks w !! _); cbn [snd tasks]; [apply Hinv|].
    rewrite lookup_insert. case_decide; [|apply Hinv].
    intros [= <-]. cbn [request_valid] in Hvalid. unfold TaskCreate_valid in Hvalid.
    apply andb_true_iff in Hvalid as [Ht Hd]. apply andb_true_iff in Ht as [Ht1 Ht2].
    apply Nat.leb_le in Ht1, Ht2.
    split; cbn [new_row Task.title Task.description]; [lia|].
    intros d Hdesc. rewrite Hdesc in Hd. apply Nat.leb_le in Hd. exact Hd.
  - rewrite get_task_eq. destruct (tasks w !! task_id); apply Hinv.
  - rewrite list_tasks_state. apply Hinv.
  - destruct (tasks w !! task_id) as [task|] eqn:Hget.
    + rewrite (update_task_eq _ _ _ _ _ Hget).
      destruct (snd (apply_payload payload task)); cbv zeta; cbn [snd tasks];
        [|apply Hinv].
      rewrite lookup_insert. case_decide; [|apply Hinv].
      intros [= <-]. destruct (Hinv _ _ Hget) as [Ht Hd].
      cbn [request_valid] in Hvalid. unfold TaskUpdate_valid in Hvalid.
      apply andb_true_iff in Hvalid as [Hvt Hvd].
      unfold row_within_bounds, updated_row.
      cbn [set_updated_at Task.title Task.description].
      rewrite apply_payload_title, apply_payload_description.
      split.
      * destruct (TaskUpdate.title payload) as [t|]; cbn [default from_option id];
          [|exact Ht].
        apply andb_true_iff in Hvt as [H1 H2]. apply Nat.leb_le in H1, H2. lia.
      * destruct (TaskUpdate.description payload) as [d'|]; [|exact Hd].
        intros d [= <-]. apply Nat.leb_le in Hvd. exact Hvd.
    + rewrite (update_task_missing _ _ _ _ Hget). apply Hinv.
  - rewrite delete_task_eq. destruct (tasks w !! task_id); cbn [snd tasks]; [|apply Hinv].
    intros Hrow. apply lookup_delete_Some in Hrow as [_ Hrow]. apply (Hinv _ _ Hrow).
Qed.

(** X13: as long as every request passes the declared validation, every
    stored task has a title of 1 to 200 characters and a description, when
    present, of at most 2000 characters: no handler writes text that
    validation did not check. *)
Theorem X13_stored_text_within_bounds env w k row :
  reachable_validated env w ->
  tasks w !! k = Some row ->
  row_within_bounds row.
Proof.
  intros Hreach. revert k row.
  induction Hreach as [|w r _ IH Hvalid]; intros k row.
  - cbn [initial_world tasks]. rewrite lookup_empty. discriminate.
  - apply serve_row_within_bounds; assumption.
Qed.

Lemma X13_stored_text_within_bounds_witness :
  row_within_bounds
    (updated_row ticking_env retitle (new_row ticking_env buy_milk initial_world) world_A).
Proof.
  apply (X13_stored_text_within_bounds ticking_env
           (serve ticking_env (PATCH_task 10%N retitle) world_A) 10%N).
  - unfold world_A.
    repeat (apply reachable_validated_serve; [|reflexivity]).
    apply reachable_validated_init.
  - vm_compute. reflexivity.
Defined.

(** *** Pagination *)

(** X14: consecutive pages fit together: without a query, and with the
    combined limit still within 100, the page of [l1] rows at [offset]
    followed by the page of [l2] rows at [offset + l1] is the page of
    [l1 + l2] rows at [offset]. *)
Theorem X14_pages_concatenate status_ q l1 l2 offset w :
  opt_str_truthy q = false ->
  1 <= l1 ->
  1 <= l2 ->
  l1 + l2 <= 100 ->
  0 <= offset ->
  offset + l1 < 2 ^ 63 ->
  exists rs1 rs2,
    fst (list_tasks status_ q l1 offset w) = Ok rs1 /\
    fst (list_tasks status_ q l2 (offset + l1) w) = Ok rs2 /\
    fst (list_tasks status_ q (l1 + l2) offset w) = Ok (rs1 ++ rs2)%list.
Proof.
  intros Hq H1 H2 H12 Ho Hmax.
  rewrite !list_tasks_page by (try exact Hq; lia).
  eexists _, _. split; [reflexivity|]. split; [reflexivity|].
  cbn [fst]. f_equal. rewrite <- map_app. f_equal.
  unfold page. rewrite !Z2Nat.inj_add by lia.
  rewrite <- drop_drop. apply eq_sym, take_take_drop.
Qed.

Lemma X14_pages_concatenate_witness :
  exists rs1 rs2,
    fst (list_tasks None None 1 0 world_AB) = Ok rs1 /\
    fst (list_tasks None None 1 (0 + 1) world_AB) = Ok rs2 /\
    fst (list_tasks None None (1 + 1) 0 world_AB) = Ok (rs1 ++ rs2)%list.
Proof.
  apply (X14_pages_concatenate None None 1 1 0 world_AB); [reflexivity|lia..].
Defined.

(** *** What a request can do to a stored row *)

Lemma serve_row_cases env r w k row row' :
  table_wf (tasks w) ->
  tasks w !! k = Some row ->
  tasks (serve env r w) !! k = Some row' ->
  row' = row \/
  exists payload, r = PATCH_task k payload /\ row' = updated_row env payload row w.
Proof.
  intros Hwf Hrow.
  destruct r as [payload|task_id|s q l o|task_id payload|task_id]; cbn [serve].
  - rewrite create_task_eq. cbv zeta. cbn [new_row Task.id].
    destruct (tasks w !! uuids env (uuid_draws w)) eqn:E; cbn [snd tasks].
    + left. congruence.
    + rewrite lookup_insert_ne by (intros Hk; rewrite Hk in E; congruence).
      left. congruence.
  - rewrite get_task_eq. destruct (tasks w !! task_id); cbn [snd]; left; congruence.
  - rewrite list_tasks_state. left. congruence.
  - destruct (tasks w !! task_id) as [task|] eqn:Hget.
    + rewrite (update_task_eq _ _ _ _ _ Hget).
      destruct (snd (apply_payload payload task)); cbv zeta; cbn [snd tasks];
        [|left; congruence].
      rewrite (Hwf _ _ Hget), lookup_insert. case_decide.
      * subst k. intros [= <-]. right. exists payload. split; congruence.
      * left. congruence.
    + rewrite (update_task_missing _ _ _ _ Hget). left. cbn [snd] in *. congruence.
  - rewrite delete_task_eq. destruct (tasks w !! task_id); cbn [snd tasks];
      [|left; congruence].
    intros H. apply lookup_delete_Some in H as [_ H]. left. congruence.
Qed.

(** X15: no request changes the id or the [created_at] of a stored task:
    a row present before and after a request has both as before. *)
Theorem X15_id_and_created_at_immutable env r w k row row' :
  table_wf (tasks w) ->
  tasks w !! k = Some row ->
  tasks (serve env r w) !! k = Some row' ->
  Task.id row' = Task.id row /\ Task.created_at row' = Task.created_at row.
Proof.
  intros Hwf Hrow Hrow'.
  destruct (serve_row_cases _ _ _ _ _ _ Hwf Hrow Hrow') as [->|(payload & _ & ->)].
  - split; reflexivity.
  - unfold updated_row. cbn [set_updated_at Task.id Task.created_at].
    destruct (apply_payload_frame payload row) as (Hi & Hc & _). split; assumption.
Qed.

Lemma X15_id_and_created_at_immutable_witness :
  Task.id (updated_row ticking_env retitle
             (new_row ticking_env buy_milk initial_world) world_AB) =
    Task.id (new_row ticking_env buy_milk initial_world) /\
  Task.created_at (updated_row ticking_env retitle
                     (new_row ticking_env buy_milk initial_world) world_AB) =
    Task.created_at (new_row ticking_env buy_milk initial_world).
Proof.
  apply (X15_id_and_created_at_immutable ticking_env (PATCH_task 10%N retitle)
           world_AB 10%N).
  - apply reachable_table_wf with ticking_env. apply world_AB_reachable.
  - vm_compute. reflexivity.
  - vm_compute. reflexivity.
Defined.

(** X16: under a monotonic clock no request moves [updated_at] backwards:
    in a store reached by a sequence of requests, a row present before and
    after one more request has an [updated_at] at least as late as before. *)
Theorem X16_updated_at_never_decreases env r w k row row' :
  monotonic_clock env ->
  reachable env w ->
  tasks w !! k = Some row ->
  tasks (serve env r w) !! k = Some row' ->
  Task.updated_at row <= Task.updated_at row'.
Proof.
  intros Hmono Hreach Hrow Hrow'.
  pose proof (reachable_table_wf _ _ Hreach) as Hwf.
  destruct (serve_row_cases _ _ _ _ _ _ Hwf Hrow Hrow') as [->|(payload & _ & ->)].
  - lia.
  - unfold updated_row. cbn [set_updated_at Task.updated_at].
    destruct (reachable_timestamps_ok _ _ Hmono Hreach _ _ Hrow) as [_ Hle].
    apply Hle. lia.
Qed.

Lemma X16_updated_at_never_decreases_witness :
  Task.updated_at (new_row ticking_env buy_milk initial_world) <=
  Task.updated_at (updated_row ticking_env retitle
                     (new_row ticking_env buy_milk initial_world) world_AB).
Proof.
  apply (X16_updated_at_never_decreases ticking_env (PATCH_task 10%N retitle)
           world_AB 10%N).
  - intros i j Hij. cbn. lia.
  - unfold world_AB, world_A. repeat apply reachable_serve. apply reachable_init.
  - vm_compute. reflexivity.
  - vm_compute. reflexivity.
Defined.

(** *** The status filter partitions the listing *)




